(** * ifopt: variable sets, constraint sets and cost terms (leaves.h)

    A shallow embedding of the three leaf classes of the composition layer
    declared in [include/ifopt/leaves.h]:

    - [VariableSet]   : a named block of decision variables,
    - [ConstraintSet] : a named block of constraint rows, linked to the
                        Composite of all variable blocks,
    - [CostTerm]      : a constraint set with one row and no bounds.

    C++ objects are records, the subclass' virtual methods are a type class,
    [assert] and the dereference of an empty [shared_ptr] are fatal outcomes
    of a small error monad, and the sparse [Jacobian] is a finite map from
    (row, column) to its stored [double] coefficient. *)

From Stdlib Require Import PrimFloat.
From stdpp Require Import gmap strings list fin_maps.

Set Default Proof Using "Type".

(** ** Outcomes of calls that can abort *)

Module Outcome.

(** Why a call did not return. *)
Inductive fatal :=
  | AssertionFailed      (* [assert(false)] was reached *)
  | NoVariablesLinked    (* the variables reference was used while empty *)
  | NoReturnValue.       (* the end of a value-returning body was reached *)

Inductive result (A : Type) :=
  | Ok (a : A)
  | Fatal (e : fatal).
Arguments Ok {A} a.
Arguments Fatal {A} e.

(** Sequencing: the first fatal outcome ends the call. *)
#[export] Instance result_bind : MBind result := fun A B k r =>
  match r with
  | Ok a => k a
  | Fatal e => Fatal e
  end.
#[export] Instance result_ret : MRet result := fun A a => Ok a.

(** The C [assert] macro (assertions enabled): a false condition aborts. *)
Definition assert (b : bool) : result unit :=
  if b then Ok tt else Fatal AssertionFailed.

Definition returns {A} (r : result A) : Prop := exists a, r = Ok a.

End Outcome.
Import Outcome.

(** ** Data *)

Abbreviation double := float.
Abbreviation VectorXd := (list double).

(** [Bounds]: one interval [lower, upper]. *)
Record Bounds := { lower_ : double; upper_ : double }.
Abbreviation VecBound := (list Bounds).

(** Modelled from the spec: the constant [NoBound] of the absent bounds
    header, "bounds = (−∞, +∞)". *)
Definition NoBound : Bounds :=
  {| lower_ := neg_infinity; upper_ := infinity |}.

(** The sparse matrix type [Jacobian]: its dimensions and the coefficients it
    stores; a coefficient that is not stored is zero. *)
Record Jacobian := {
  rows : nat;
  cols : nat;
  coeffs : gmap (nat * nat) double
}.

(** [Jacobian(r, c)]: the zero-initialized r x c matrix. *)
Definition Jacobian_zero (r c : nat) : Jacobian :=
  {| rows := r; cols := c; coeffs := ∅ |}.

Definition coeff (J : Jacobian) (r c : nat) : double :=
  default zero (coeffs J !! (r, c)).

(** [coeffRef(r, c) = v] *)
Definition set_coeff (r c : nat) (v : double) (J : Jacobian) : Jacobian :=
  {| rows := rows J; cols := cols J; coeffs := <[(r, c) := v]> (coeffs J) |}.

(** ** Components and the Composite of variables *)

(** A [VariableSet] is a [Component] built by [Component(n_var, name)]; the
    values are those of the user's subclass.  Counts of rows and columns are
    matrix dimensions, hence natural numbers. *)
Record VariableSet := {
  var_name : string;
  var_rows : nat;
  var_values : VectorXd
}.

(** [VariableSet(n_var, name) : Component(n_var, name)] *)
Definition VariableSet_new (n_var : nat) (name : string) (x : VectorXd) : VariableSet :=
  {| var_name := name; var_rows := n_var; var_values := x |}.

(** Modelled from the spec: the class [Composite] of the absent composite
    header, "an ordered collection of Blocks of the same kind, with a derived
    total entry count = sum of member counts". *)
Definition Composite := list VariableSet.

Definition Composite_GetRows (c : Composite) : nat :=
  foldr (fun v n => var_rows v + n) 0 c.

(** [Composite::Ptr] is a [shared_ptr]: empty, or the address of a Composite
    that other owners share. *)
Definition loc := nat.
Definition VariablesPtr := option loc.
Abbreviation heap := (gmap loc Composite).

(** [*x]: fatal on the empty pointer (and on an address that holds no
    Composite, which a shared pointer never is). *)
Definition deref (h : heap) (x : VariablesPtr) : result Composite :=
  match x ≫= (h !!.) with
  | Some c => Ok c
  | None => Fatal NoVariablesLinked
  end.

(** ** VariableSet *)

(** [Jacobian GetJacobian() const override final { assert(false); }] : the
    body ends after the assertion without a [return]. *)
Definition VariableSet_GetJacobian (v : VariableSet) : result Jacobian :=
  _ ← assert false; Fatal NoReturnValue.

(** ** ConstraintSet *)

(** The object: the [Component] part (name and row count), the private member
    [variables_] and the members [D] a subclass adds. *)
Record ConstraintSet (D : Type) := {
  con_name : string;
  con_rows : nat;
  variables_ : VariablesPtr;
  derived : D
}.
Arguments con_name {D} _.
Arguments con_rows {D} _.
Arguments variables_ {D} _.
Arguments derived {D} _.

(** Modelled from the spec: the constructor [ConstraintSet(n_constraints,
    name)], whose body is not in the header: "Constructed unlinked (no
    variable reference)"; [variables_] is a default-initialized pointer. *)
Definition ConstraintSet_new {D} (n_constraints : nat) (name : string) (s : D)
  : ConstraintSet D :=
  {| con_name := name; con_rows := n_constraints; variables_ := None; derived := s |}.

Definition GetRows {D} (o : ConstraintSet D) : nat := con_rows o.
Definition GetName {D} (o : ConstraintSet D) : string := con_name o.

(** [const VariablesPtr GetVariables() const { return variables_; }] *)
Definition GetVariables {D} (o : ConstraintSet D) : VariablesPtr := variables_ o.

(** The assignment [variables_ = x;] *)
Definition set_variables_ {D} (x : VariablesPtr) (o : ConstraintSet D) : ConstraintSet D :=
  {| con_name := con_name o; con_rows := con_rows o; variables_ := x; derived := derived o |}.

Definition set_derived {D} (s : D) (o : ConstraintSet D) : ConstraintSet D :=
  {| con_name := con_name o; con_rows := con_rows o; variables_ := variables_ o; derived := s |}.

(** The virtual methods a subclass with members [D] supplies.

    The hook [LinkVariables] is a public, non-const virtual: an override can
    change the subclass' own members and, by calling the public
    [LinkVariableAll] itself, the pointer in [variables_] (which is private,
    so that is the only way to write it).  Its result is what it leaves
    behind when it returns: the pointer in [variables_] and the members.
    Name and row count are fixed when the object is built.

    [FillJacobianBlock] is [const] and receives the linked variables, the
    block name and the block to fill in place. *)
Class ConstraintImpl (D : Type) := {
  LinkVariables : heap -> VariablesPtr -> ConstraintSet D -> VariablesPtr * D;
  FillJacobianBlock : ConstraintSet D -> Composite -> string -> Jacobian -> Jacobian
}.

(** [virtual void LinkVariables(const VariablesPtr& x) { }] : the empty body
    leaves the pointer and the members as they are. *)
Definition LinkVariables_default {D}
  : heap -> VariablesPtr -> ConstraintSet D -> VariablesPtr * D :=
  fun _ _ o => (variables_ o, derived o).

(** [[
  virtual void LinkVariableAll(const VariablesPtr& x) final
  {
    variables_ = x;
    LinkVariables(x);
  };
]] *)
Definition LinkVariableAll `{ConstraintImpl D} (h : heap) (x : VariablesPtr)
    (o : ConstraintSet D) : ConstraintSet D :=
  let o1 := set_variables_ x o in
  let left := LinkVariables h x o1 in
  set_derived left.2 (set_variables_ left.1 o1).

(** A hook that does not call [LinkVariableAll] itself: it returns with the
    pointer it found. *)
Definition hook_keeps_variables `{ConstraintImpl D} : Prop :=
  forall h x (o : ConstraintSet D), (LinkVariables h x o).1 = GetVariables o.

(** [virtual void SetVariables(const VectorXd& x) override final
    { assert(false); };] *)
Definition SetVariables {D} (x : VectorXd) (o : ConstraintSet D)
  : result (ConstraintSet D) :=
  _ ← assert false; Ok o.

(** Modelled from the spec: part of the body of [GetJacobian], "writes that
    block into the matching column range of the full matrix".
    [insert_block col block jacobian] is the loop over the stored
    coefficients of [block],
    [jacobian.coeffRef(it.row(), col + it.col()) = it.value()]. *)
Definition insert_block (col : nat) (block jacobian : Jacobian) : Jacobian :=
  foldl (fun J '((r, c), v) => set_coeff r (col + c) v J)
        jacobian (map_to_list (coeffs block)).

(** Modelled from the spec: part of the body of [GetJacobian], "asks the
    subclass to fill the corresponding block of a zero-initialized row-count
    x block-count matrix via FillJacobianBlock(variable_block_name, block)".
    The block passed to the subclass for the variable set [v] is a
    zero-initialized (row count) x (count of [v]) matrix. *)
Definition filled_block `{ConstraintImpl D} (o : ConstraintSet D) (vars : Composite)
    (v : VariableSet) : Jacobian :=
  FillJacobianBlock o vars (var_name v) (Jacobian_zero (GetRows o) (var_rows v)).

(** Modelled from the spec: the loop of [GetJacobian], "for each VariableSet
    in the linked Composite, in composite order", over the components that
    are left; [col] is the column offset of the next block. *)
Fixpoint assemble `{ConstraintImpl D} (o : ConstraintSet D) (vars : Composite)
    (components : list VariableSet) (col : nat) (jacobian : Jacobian) : Jacobian :=
  match components with
  | [] => jacobian
  | v :: rest =>
      let n := var_rows v in
      let jac := filled_block o vars v in
      assemble o vars rest (col + n) (insert_block col jac jacobian)
  end.

(** Modelled from the spec: the body of [ConstraintSet::GetJacobian], which
    the header only declares: "for each VariableSet in the linked Composite,
    in composite order, determines that block's column range (its offset = sum
    of counts of preceding blocks, width = its own count), asks the subclass
    to fill the corresponding block of a zero-initialized row-count x
    block-count matrix via FillJacobianBlock(variable_block_name, block), and
    writes that block into the matching column range of the full n x (total
    variable count) matrix"; "GetJacobian() on an unlinked ConstraintSet must
    fail fast". *)
Definition GetJacobian `{ConstraintImpl D} (h : heap) (o : ConstraintSet D)
  : result Jacobian :=
  vars ← deref h (variables_ o);
  mret (assemble o vars vars 0 (Jacobian_zero (GetRows o) (Composite_GetRows vars))).



(** The same matrix in the words of the specification, without the running
    column counter: the block of the [k]-th variable set is written at the
    offset that is the sum of the counts of the sets before it. *)
Definition block_offset (vars : Composite) (k : nat) : nat :=
  Composite_GetRows (take k vars).

Definition write_kth_block `{ConstraintImpl D} (o : ConstraintSet D) (vars : Composite)
    (J : Jacobian) (k : nat) : Jacobian :=
  match vars !! k with
  | Some v => insert_block (block_offset vars k) (filled_block o vars v) J
  | None => J
  end.

Definition Jacobian_by_offsets `{ConstraintImpl D} (o : ConstraintSet D)
    (vars : Composite) : Jacobian :=
  foldl (write_kth_block o vars)
        (Jacobian_zero (GetRows o) (Composite_GetRows vars))
        (seq 0 (length vars)).

(** What the contract of [FillJacobianBlock] asks of the subclass: every
    coefficient it stores lies inside the (row count) x (block count) shape
    of the block it was given. *)
Definition within_shape (n w : nat) (J : Jacobian) : Prop :=
  map_Forall (fun k (_ : double) => k.1 < n /\ k.2 < w) (coeffs J).

Definition fills_within_shape `{ConstraintImpl D} (o : ConstraintSet D)
    (vars : Composite) : Prop :=
  Forall (fun v => within_shape (GetRows o) (var_rows v) (filled_block o vars v)) vars.

(** [nonZeros()]: the number of coefficients the sparse matrix stores. *)
Definition nonZeros (J : Jacobian) : nat := size (coeffs J).

(** The dense view of a matrix, row by row. *)
Definition to_dense (J : Jacobian) : list (list double) :=
  map (fun r => map (fun c => coeff J r c) (seq 0 (cols J))) (seq 0 (rows J)).

(** ** CostTerm *)

(** The pure virtual [double GetCost() const]: "abstract scalar function of
    the linked variables".  It takes no argument and the header checks
    nothing for it: [GetCost] is what it computes from the linked variables,
    [GetCost_unlinked] is what the subclass' code does while
    [GetVariables()] is empty (fatal if it uses the empty pointer, a value
    if it does not read the variables). *)
Class CostImpl (D : Type) := {
  GetCost : ConstraintSet D -> Composite -> double;
  GetCost_unlinked : ConstraintSet D -> result double
}.

(** Modelled from the spec: the constructor [CostTerm(name)], whose body is
    not in the header: "Fixed shape: exactly 1 row". *)
Definition CostTerm_new {D} (name : string) (s : D) : ConstraintSet D :=
  ConstraintSet_new 1 name s.

(** The call [GetCost()] on the object: the subclass' code, on a linked and
    on an unlinked object. *)
Definition CostTerm_GetCost `{CostImpl D} (h : heap) (o : ConstraintSet D)
  : result double :=
  match deref h (GetVariables o) with
  | Ok vars => Ok (GetCost o vars)
  | Fatal _ => GetCost_unlinked o
  end.

(** Modelled from the spec: the body of [CostTerm::GetValues], which the
    header only declares: "wraps GetCost()'s scalar result into a length-1
    value vector". *)
Definition CostTerm_GetValues `{CostImpl D} (h : heap) (o : ConstraintSet D)
  : result VectorXd :=
  cost ← CostTerm_GetCost h o;
  mret [cost].

(** Modelled from the spec: the body of [CostTerm::GetBounds], which the
    header only declares: "always returns the unbounded single interval". *)
Definition CostTerm_GetBounds {D} (o : ConstraintSet D) : VecBound :=
  [NoBound].

(** The objects of class [CostTerm]: built by its constructor, then changed
    only by the public [LinkVariableAll] and by the subclass on its own
    members. *)
Inductive is_CostTerm `{ConstraintImpl D} : ConstraintSet D -> Prop :=
  | cost_constructed name s :
      is_CostTerm (CostTerm_new name s)
  | cost_linked h x o :
      is_CostTerm o -> is_CostTerm (LinkVariableAll h x o)
  | cost_member_update s o :
      is_CostTerm o -> is_CostTerm (set_derived s o).

(** ** Concrete subclasses used as examples *)

(** A constraint with no members of its own, the default hook, and a
    Jacobian with respect to the block "B" only: it stores the four
    coefficients [a b; c d] and leaves every other block untouched. *)
Definition fill_only_B (a b c d : double) (var_set : string) (jac_block : Jacobian)
  : Jacobian :=
  if String.eqb var_set "B" then
    set_coeff 1 1 d (set_coeff 1 0 c (set_coeff 0 1 b (set_coeff 0 0 a jac_block)))
  else jac_block.

Definition only_B (a b c d : double) : ConstraintImpl unit :=
  {| LinkVariables := LinkVariables_default;
     FillJacobianBlock := fun _ _ => fill_only_B a b c d |}.

(** A subclass whose hook records what [GetVariables()] returns while the
    hook runs. *)
Definition observing_hook (fill : string -> Jacobian -> Jacobian)
  : ConstraintImpl VariablesPtr :=
  {| LinkVariables := fun _ _ o => (GetVariables o, GetVariables o);
     FillJacobianBlock := fun _ _ => fill |}.

(** A cost that is the first value of the first variable set; it reads the
    variables, so it uses the empty pointer on an unlinked object. *)
Definition first_value_cost : CostImpl unit :=
  {| GetCost := fun _ vars =>
       match vars with
       | v :: _ => hd zero (var_values v)
       | [] => zero
       end;
     GetCost_unlinked := fun _ => Fatal NoVariablesLinked |}.



(** A subclass whose hook links the constraint to [other] whatever it is
    called with: [if (x != other) LinkVariableAll(other);]. *)
Definition relinking_hook (other : VariablesPtr) (fill : string -> Jacobian -> Jacobian)
  : ConstraintImpl unit :=
  {| LinkVariables := fun _ _ o => (other, derived o);
     FillJacobianBlock := fun _ _ => fill |}.

(** Blocks "A" (size 3) and "B" (size 2), stored at address 7. *)
Definition vars_AB : Composite :=
  [VariableSet_new 3 "A" [one; one; one]; VariableSet_new 2 "B" [two; two]].

Definition heap_AB : heap := {[ 7 := vars_AB ]}.

(** A subclass whose hook appends to a log the pointer it is called with,
    paired with what [GetVariables()] returns at that moment. *)
Definition logging_hook (fill : string -> Jacobian -> Jacobian)
  : ConstraintImpl (list (VariablesPtr * VariablesPtr)) :=
  {| LinkVariables := fun _ x o =>
       (GetVariables o, derived o ++ [(x, GetVariables o)]);
     FillJacobianBlock := fun _ _ => fill |}.

(** The blocks "A" and "B" followed by a third block "C" (size 4), stored at
    address 8 beside the Composite of "A" and "B". *)
Definition vars_ABC : Composite :=
  vars_AB ++ [VariableSet_new 4 "C" [one; one; one; one]].

Definition heap_ABC : heap := <[ 8 := vars_ABC ]> heap_AB.

(** A Composite with the block "A" only, stored at address 5. *)
Definition vars_A : Composite := [VariableSet_new 3 "A" [one; one; one]].

Definition heap_A : heap := {[ 5 := vars_A ]}.

(** * Properties *)

(** C3: every call of [GetJacobian] on a [VariableSet] ends in the failed
    assertion; no matrix is returned. *)
Theorem VariableSet_GetJacobian_fatal (v : VariableSet) :
  VariableSet_GetJacobian v = Fatal AssertionFailed /\
  ~ returns (VariableSet_GetJacobian v).
Proof.
  split; [reflexivity | intros [J HJ]; discriminate HJ].
Qed.

(** C4: [SetVariables] on a [ConstraintSet] ends in the failed assertion for
    every object and every vector: the call never returns, so there is no
    state after it in which [x] was assigned. *)
Theorem ConstraintSet_SetVariables_fatal {D} (x : VectorXd) (o : ConstraintSet D) :
  SetVariables x o = Fatal AssertionFailed /\
  ~ returns (SetVariables x o).
Proof.
  unfold SetVariables; cbn.
  split; [reflexivity | intros [o' Ho']; discriminate Ho'].
Qed.

(** C5: [LinkVariableAll(x)] first stores [x] in [variables_] and then runs
    the hook [LinkVariables] on the object that holds [x]; what the hook
    leaves behind is the state after the call.  The default hook changes
    nothing, so with it the call changes the stored reference to [x] and
    nothing else. *)
Theorem LinkVariableAll_stores_then_calls_hook :
  (forall D (I : ConstraintImpl D) h x (o : ConstraintSet D),
     let stored := {| con_name := GetName o; con_rows := GetRows o;
                      variables_ := x; derived := derived o |} in
     GetVariables stored = x /\
     LinkVariableAll h x o =
       {| con_name := GetName o; con_rows := GetRows o;
          variables_ := (LinkVariables h x stored).1;
          derived := (LinkVariables h x stored).2 |}) /\
  (forall fill h x (o : ConstraintSet VariablesPtr),
     derived (@LinkVariableAll _ (observing_hook fill) h x o) = x /\
     GetVariables (@LinkVariableAll _ (observing_hook fill) h x o) = x) /\
  (forall D h x (o : ConstraintSet D),
     LinkVariables_default h x o = (GetVariables o, derived o)) /\
  (forall D fill h x (o : ConstraintSet D),
     let I := {| LinkVariables := LinkVariables_default; FillJacobianBlock := fill |} in
     LinkVariableAll h x o =
       {| con_name := GetName o; con_rows := GetRows o;
          variables_ := x; derived := derived o |} /\
     GetVariables (LinkVariableAll h x o) = x).
Proof.
  split; [| split; [| split]].
  - intros D I h x o. split; reflexivity.
  - intros fill h x o. split; reflexivity.
  - reflexivity.
  - intros D fill h x o. split; reflexivity.
Qed.

Lemma LinkVariableAll_keeps_variables `{ConstraintImpl D} (h : heap)
    (x : VariablesPtr) (o : ConstraintSet D) :
  hook_keeps_variables -> GetVariables (LinkVariableAll h x o) = x.
Proof.
  intros Hkeeps. unfold LinkVariableAll. cbn. apply Hkeeps.
Qed.

Lemma default_hook_keeps_variables {D}
    (fill : ConstraintSet D -> Composite -> string -> Jacobian -> Jacobian) :
  @hook_keeps_variables D
    {| LinkVariables := LinkVariables_default; FillJacobianBlock := fill |}.
Proof. intros h x o. reflexivity. Qed.

(** C10, as the code has it: [x] is stored before the hook is called, so the
    hook finds [GetVariables()] = [x]; after the call [GetVariables()] is
    what the hook left: [x], the argument of the most recent call, for every
    hook that does not call [LinkVariableAll] itself. *)
Theorem GetVariables_after_LinkVariableAll :
  (forall D (I : ConstraintImpl D) h x (o : ConstraintSet D),
     let stored := {| con_name := GetName o; con_rows := GetRows o;
                      variables_ := x; derived := derived o |} in
     GetVariables stored = x /\
     GetVariables (LinkVariableAll h x o) = (LinkVariables h x stored).1 /\
     derived (LinkVariableAll h x o) = (LinkVariables h x stored).2) /\
  (forall D (I : ConstraintImpl D),
     hook_keeps_variables ->
     forall h (earlier : list VariablesPtr) x (o : ConstraintSet D),
       GetVariables (LinkVariableAll h x o) = x /\
       GetVariables (foldl (fun o' y => LinkVariableAll h y o') o (earlier ++ [x])) = x) /\
  (forall fill h x (o : ConstraintSet VariablesPtr),
     derived (@LinkVariableAll _ (observing_hook fill) h x o) = x).
Proof.
  split; [| split].
  - intros D I h x o. repeat split.
  - intros D I Hkeeps h earlier x o. split.
    + by apply LinkVariableAll_keeps_variables.
    + rewrite foldl_app. cbn [foldl]. by apply LinkVariableAll_keeps_variables.
  - intros fill h x o. reflexivity.
Qed.

Lemma GetVariables_after_LinkVariableAll_witness :
  let I := only_B zero zero zero zero in
  GetVariables (foldl (fun o' y => LinkVariableAll heap_ABC y o')
                  (ConstraintSet_new 2 "c" tt) ([Some 7; None] ++ [Some 8]))
  = Some 8.
Proof.
  cbv zeta.
  apply (proj1 (proj2 GetVariables_after_LinkVariableAll) unit
           (only_B zero zero zero zero)
           (default_hook_keeps_variables _)
           heap_ABC [Some 7; None] (Some 8) (ConstraintSet_new 2 "c" tt)).
Defined.

(** C10 fails as stated: a hook that calls [LinkVariableAll] itself leaves
    another pointer behind, and [GetVariables()] after [LinkVariableAll(x)]
    is not [x]. *)
Lemma LinkVariableAll_hook_can_relink :
  let I := relinking_hook (Some 8) (fill_only_B zero zero zero zero) in
  let o := LinkVariableAll heap_ABC (Some 7) (ConstraintSet_new 2 "c" tt) in
  GetVariables o = Some 8 /\ GetVariables o <> Some 7.
Proof.
  cbn. split; [reflexivity | discriminate].
Qed.

(** C6, as the code has it: a new constraint is unlinked; [LinkVariableAll]
    has no guard, a second call is carried out like the first: it stores its
    argument over the earlier reference and runs the hook again.  With a hook
    that does not call [LinkVariableAll] itself the constraint then points to
    the argument of the second call. *)
Theorem LinkVariableAll_relink :
  (forall D (n : nat) (name : string) (s : D),
     GetVariables (ConstraintSet_new n name s) = None) /\
  (forall D (I : ConstraintImpl D) h x y (o : ConstraintSet D),
     let o1 := LinkVariableAll h x o in
     let stored := {| con_name := GetName o; con_rows := GetRows o;
                      variables_ := y; derived := derived o1 |} in
     LinkVariableAll h y o1 =
       {| con_name := GetName o; con_rows := GetRows o;
          variables_ := (LinkVariables h y stored).1;
          derived := (LinkVariables h y stored).2 |}) /\
  (forall D (I : ConstraintImpl D),
     hook_keeps_variables ->
     forall h x y (o : ConstraintSet D) (n : nat) (name : string) (s : D),
       GetVariables (LinkVariableAll h x (ConstraintSet_new n name s)) = x /\
       GetVariables (LinkVariableAll h y (LinkVariableAll h x o)) = y) /\
  (forall fill h x y (o : ConstraintSet (list (VariablesPtr * VariablesPtr))),
     derived (@LinkVariableAll _ (logging_hook fill) h y
                (@LinkVariableAll _ (logging_hook fill) h x o))
     = derived o ++ [(x, x); (y, y)]).
Proof.
  split; [reflexivity | split; [| split]].
  - intros D I h x y o. reflexivity.
  - intros D I Hkeeps h x y o n name s.
    split; by apply LinkVariableAll_keeps_variables.
  - intros fill h x y o. cbn. by rewrite <- app_assoc.
Qed.

Lemma LinkVariableAll_relink_witness :
  let I := only_B zero zero zero zero in
  GetVariables (LinkVariableAll heap_ABC (Some 8)
                  (LinkVariableAll heap_ABC (Some 7) (ConstraintSet_new 2 "c" tt)))
  = Some 8.
Proof.
  cbv zeta.
  apply (proj1 (proj2 (proj2 LinkVariableAll_relink)) unit
           (only_B zero zero zero zero) (default_hook_keeps_variables _)
           heap_ABC (Some 7) (Some 8) (ConstraintSet_new 2 "c" tt) 2 "c" tt).
Defined.

(** C6 fails as stated: a second [LinkVariableAll], with the Composite at
    address 8 instead of the one at address 7, returns normally and the
    constraint then points to that other Composite. *)
Lemma LinkVariableAll_second_call_repoints :
  let I := only_B zero zero zero zero in
  let o1 := LinkVariableAll heap_ABC (Some 7) (ConstraintSet_new 2 "c" tt) in
  let o2 := LinkVariableAll heap_ABC (Some 8) o1 in
  deref heap_ABC (GetVariables o1) = Ok vars_AB /\
  deref heap_ABC (GetVariables o2) = Ok vars_ABC /\
  GetVariables o2 <> GetVariables o1.
Proof.
  cbv zeta. split; [reflexivity | split; [reflexivity |]].
  cbn. discriminate.
Qed.

(** *** Unlinked constraints *)


Lemma deref_linked (h : heap) (x : loc) (vars : Composite) :
  h !! x = Some vars -> deref h (Some x) = Ok vars.
Proof. intros Hx. unfold deref; cbn. rewrite Hx. reflexivity. Qed.




(** *** Cost terms *)

(** C8: on a linked cost term [GetValues] returns the vector of length 1
    whose entry is the cost of the linked variables, the value [GetCost]
    returns. *)
Theorem CostTerm_GetValues_wraps_GetCost `{CostImpl D} (h : heap) (o : ConstraintSet D)
    (x : loc) (vars : Composite) :
  GetVariables o = Some x -> h !! x = Some vars ->
  CostTerm_GetCost h o = Ok (GetCost o vars) /\
  CostTerm_GetValues h o = Ok [GetCost o vars] /\
  (forall v, CostTerm_GetValues h o = Ok v ->
     length v = 1 /\ CostTerm_GetCost h o = Ok (hd zero v)).
Proof.
  unfold GetVariables. intros Hx Hvars.
  assert (Hc : CostTerm_GetCost h o = Ok (GetCost o vars))
    by (unfold CostTerm_GetCost, GetVariables;
        rewrite Hx, (deref_linked _ _ _ Hvars); reflexivity).
  assert (Hv : CostTerm_GetValues h o = Ok [GetCost o vars])
    by (unfold CostTerm_GetValues; rewrite Hc; reflexivity).
  split; [exact Hc | split; [exact Hv |]].
  intros v Hret. rewrite Hv in Hret. injection Hret as <-.
  split; [reflexivity | exact Hc].
Qed.

Lemma CostTerm_GetValues_wraps_GetCost_witness :
  let I := only_B zero zero zero zero in
  let o := LinkVariableAll heap_AB (Some 7) (CostTerm_new "cost" tt) in
  @CostTerm_GetValues unit first_value_cost heap_AB o = Ok [one].
Proof.
  cbv zeta.
  apply (@CostTerm_GetValues_wraps_GetCost unit first_value_cost heap_AB
           (@LinkVariableAll unit (only_B zero zero zero zero) heap_AB (Some 7)
              (CostTerm_new "cost" tt)) 7 vars_AB).
  - reflexivity.
  - reflexivity.
Defined.

(** C9: a cost term is built with one row and keeps it, and [GetBounds]
    returns one interval, (-infinity, +infinity), whatever the object's
    state. *)
Theorem CostTerm_one_row_no_bounds :
  (forall D (name : string) (s : D), GetRows (CostTerm_new name s) = 1) /\
  (forall D (I : ConstraintImpl D) (o : ConstraintSet D),
     is_CostTerm o ->
     GetRows o = 1 /\
     CostTerm_GetBounds o = [ {| lower_ := neg_infinity; upper_ := infinity |} ] /\
     length (CostTerm_GetBounds o) = 1).
Proof.
  split; [reflexivity |].
  intros D I o Hcost. split; [| split; reflexivity].
  induction Hcost as [name s | h x o _ IH | s o _ IH]; [reflexivity | exact IH | exact IH].
Qed.

Lemma CostTerm_one_row_no_bounds_witness :
  let I := only_B zero zero zero zero in
  let o := LinkVariableAll heap_AB (Some 7) (CostTerm_new "cost" tt) in
  GetRows o = 1 /\ CostTerm_GetBounds o = [NoBound].
Proof.
  cbv zeta.
  pose proof (proj2 CostTerm_one_row_no_bounds unit (only_B zero zero zero zero)
           (@LinkVariableAll unit (only_B zero zero zero zero) heap_AB (Some 7)
              (CostTerm_new "cost" tt))
           (@cost_linked unit (only_B zero zero zero zero) heap_AB (Some 7) _
              (@cost_constructed unit (only_B zero zero zero zero) "cost" tt)))
    as [Hrows [Hbounds _]].
  split; [exact Hrows | exact Hbounds].
Defined.

(** *** Writing one block into the full matrix *)

Section InsertBlock.
Variable col : nat.

Let step := fun (J : Jacobian) (e : nat * nat * double) =>
  let '((r, c), v) := e in set_coeff r (col + c) v J.

Lemma scatter_dims (l : list (nat * nat * double)) (J : Jacobian) :
  rows (foldl step J l) = rows J /\ cols (foldl step J l) = cols J.
Proof.
  revert J. induction l as [| [[r c] v] l IH]; intros J; cbn; [by split |].
  destruct (IH (set_coeff r (col + c) v J)) as [-> ->]. by split.
Qed.

(** A position no entry of the list is written to keeps its coefficient. *)
Lemma scatter_miss (l : list (nat * nat * double)) (J : Jacobian) (k : nat * nat) :
  (forall r c v, (r, c, v) ∈ l -> (r, col + c) <> k) ->
  coeffs (foldl step J l) !! k = coeffs J !! k.
Proof.
  revert J. induction l as [| [[r c] v] l IH]; intros J Hmiss; cbn; [done |].
  rewrite IH.
  - cbn. apply lookup_insert_ne. apply (Hmiss r c v). left.
  - intros r' c' v' Hin. apply (Hmiss r' c' v'). by right.
Qed.

(** An entry of a list without repeated positions ends up at its shifted
    position. *)
Lemma scatter_hit (l : list (nat * nat * double)) (J : Jacobian) r c v :
  NoDup l.*1 -> (r, c, v) ∈ l ->
  coeffs (foldl step J l) !! (r, col + c) = Some v.
Proof.
  revert J. induction l as [| [[r' c'] v'] l IH]; intros J Hnodup Hin.
  - by apply elem_of_nil in Hin.
  - cbn in Hnodup. apply NoDup_cons in Hnodup as [Hfresh Hnodup].
    apply elem_of_cons in Hin as [Heq | Hin]; cbn.
    + injection Heq as <- <- <-.
      rewrite scatter_miss; [cbn; apply lookup_insert_eq |].
      intros r1 c1 v1 Hin1 Hk. injection Hk as -> Hc.
      assert (c1 = c) as -> by lia.
      apply Hfresh. apply list_elem_of_fmap. by exists (r, c, v1).
    + by apply IH.
Qed.
End InsertBlock.

Lemma insert_block_dims col block J :
  rows (insert_block col block J) = rows J /\
  cols (insert_block col block J) = cols J.
Proof. apply scatter_dims. Qed.

(** Inside the shifted block the stored coefficients of the block win;
    where the block stores nothing the full matrix is left as it was. *)
Lemma insert_block_lookup col block J r c :
  coeffs (insert_block col block J) !! (r, col + c) =
    match coeffs block !! (r, c) with
    | Some v => Some v
    | None => coeffs J !! (r, col + c)
    end.
Proof.
  unfold insert_block.
  destruct (coeffs block !! (r, c)) as [v |] eqn:Hblock.
  - apply scatter_hit; [apply NoDup_fst_map_to_list |].
    by apply elem_of_map_to_list.
  - apply scatter_miss. intros r1 c1 v1 Hin Hk.
    apply elem_of_map_to_list in Hin. injection Hk as -> Hc.
    assert (c1 = c) as -> by lia. congruence.
Qed.

(** Columns to the left of the offset are not written. *)
Lemma insert_block_left col block J r c :
  c < col -> coeffs (insert_block col block J) !! (r, c) = coeffs J !! (r, c).
Proof.
  intros Hc. unfold insert_block. apply scatter_miss.
  intros r1 c1 v1 _ Hk. injection Hk as _ Hk. lia.
Qed.

(** A block that keeps to its shape writes no column at or beyond
    offset + width, and no row beyond the row count. *)
Lemma insert_block_outside n w col block J r c :
  within_shape n w block -> (n <= r \/ col + w <= c) ->
  coeffs (insert_block col block J) !! (r, c) = coeffs J !! (r, c).
Proof.
  intros Hshape Hout. unfold insert_block. apply scatter_miss.
  intros r1 c1 v1 Hin Hk. apply elem_of_map_to_list in Hin.
  apply Hshape in Hin as [Hr1 Hc1]; cbn in Hr1, Hc1.
  injection Hk as -> Hk. lia.
Qed.

Lemma insert_block_within_shape n w col block J :
  within_shape n col J -> within_shape n w block ->
  within_shape n (col + w) (insert_block col block J).
Proof.
  intros HJ Hblock [r c] v Hlook; cbn.
  destruct (decide (r < n /\ c < col + w)) as [Hin | Hout]; [exact Hin |].
  rewrite (insert_block_outside n w) in Hlook by (done || lia).
  apply HJ in Hlook as [Hr Hc]; cbn in Hr, Hc. lia.
Qed.

Lemma Composite_GetRows_snoc (pre : Composite) (v : VariableSet) :
  Composite_GetRows (pre ++ [v]) = Composite_GetRows pre + var_rows v.
Proof.
  unfold Composite_GetRows.
  induction pre as [| u pre IH]; cbn; [lia | rewrite IH; lia].
Qed.

(** *** The loop over the variable sets *)

Section Assemble.
Context `{I : ConstraintImpl D}.
Variable o : ConstraintSet D.
Variable vars : Composite.

Let n := GetRows o.
Let block_ok := fun v => within_shape n (var_rows v) (filled_block o vars v).

Lemma assemble_dims components col J :
  rows (assemble o vars components col J) = rows J /\
  cols (assemble o vars components col J) = cols J.
Proof.
  revert col J. induction components as [| v rest IH]; intros col J; cbn; [by split |].
  destruct (IH (col + var_rows v) (insert_block col (filled_block o vars v) J))
    as [-> ->].
  apply insert_block_dims.
Qed.

(** The blocks still to come only write at or to the right of [col]. *)
Lemma assemble_left components col J r c :
  c < col ->
  coeffs (assemble o vars components col J) !! (r, c) = coeffs J !! (r, c).
Proof.
  revert col J. induction components as [| v rest IH]; intros col J Hc; cbn; [done |].
  rewrite IH by lia. by apply insert_block_left.
Qed.

Lemma assemble_within_shape components col J :
  Forall block_ok components -> within_shape n col J ->
  within_shape n (col + Composite_GetRows components)
    (assemble o vars components col J).
Proof.
  revert col J.
  induction components as [| v rest IH]; intros col J Hblocks HJ; cbn.
  - by rewrite Nat.add_0_r.
  - apply Forall_cons in Hblocks as [Hv Hrest].
    rewrite Nat.add_assoc. apply IH; [exact Hrest |].
    by apply insert_block_within_shape.
Qed.

(** The block of [v] lands [Composite_GetRows pre] columns to the right of
    where the loop starts, when the blocks before it keep to their shape. *)
Lemma assemble_block pre v post col J r j :
  Forall block_ok pre -> within_shape n col J -> j < var_rows v ->
  coeffs (assemble o vars (pre ++ v :: post) col J)
    !! (r, col + Composite_GetRows pre + j)
  = coeffs (filled_block o vars v) !! (r, j).
Proof.
  revert col J.
  induction pre as [| u pre IH]; intros col J Hpre HJ Hj; cbn.
  - rewrite Nat.add_0_r, assemble_left by lia.
    rewrite insert_block_lookup.
    destruct (coeffs (filled_block o vars v) !! (r, j)) as [x |]; [done |].
    destruct (coeffs J !! (r, col + j)) as [y |] eqn:Hy; [| done].
    apply HJ in Hy as [_ Hc]; cbn in Hc. lia.
  - apply Forall_cons in Hpre as [Hu Hpre].
    rewrite Nat.add_assoc. apply IH; [exact Hpre | | exact Hj].
    by apply insert_block_within_shape.
Qed.
(** The running column counter is the offset of the next block. *)
Lemma assemble_by_offsets rest pre J :
  vars = pre ++ rest ->
  assemble o vars rest (Composite_GetRows pre) J
  = foldl (write_kth_block o vars) J (seq (length pre) (length rest)).
Proof.
  revert pre J. induction rest as [| v rest IH]; intros pre J Hsplit; [done |].
  cbn [assemble length seq foldl].
  assert (Hk : write_kth_block o vars J (length pre)
               = insert_block (Composite_GetRows pre) (filled_block o vars v) J).
  { assert (Hlook : vars !! length pre = Some v)
      by (rewrite Hsplit; by apply list_lookup_middle).
    assert (Htake : take (length pre) vars = pre)
      by (rewrite Hsplit; apply take_app_length).
    unfold write_kth_block, block_offset. by rewrite Hlook, Htake. }
  rewrite Hk, <- Composite_GetRows_snoc.
  replace (S (length pre)) with (length (pre ++ [v]))
    by (rewrite length_app; cbn; lia).
  apply IH. by rewrite <- app_assoc.
Qed.
End Assemble.

Lemma within_shape_zero n w r c : within_shape n w (Jacobian_zero r c).
Proof. apply map_Forall_empty. Qed.

Lemma coeff_lookup_eq (J K : Jacobian) r c r' c' :
  coeffs J !! (r, c) = coeffs K !! (r', c') -> coeff J r c = coeff K r' c'.
Proof. unfold coeff. by intros ->. Qed.

(** What a linked [GetJacobian] returns, block by block. *)
Lemma GetJacobian_linked `{ConstraintImpl D} (h : heap) (o : ConstraintSet D)
    (x : loc) (vars : Composite) :
  GetVariables o = Some x -> h !! x = Some vars -> fills_within_shape o vars ->
  exists J, GetJacobian h o = Ok J /\
    rows J = GetRows o /\ cols J = Composite_GetRows vars /\
    within_shape (GetRows o) (Composite_GetRows vars) J /\
    forall pre v post, vars = pre ++ v :: post ->
      forall r j, j < var_rows v ->
        coeffs J !! (r, Composite_GetRows pre + j)
        = coeffs (filled_block o vars v) !! (r, j).
Proof.
  unfold GetVariables. intros Hx Hvars Hfill.
  eexists. split.
  { unfold GetJacobian. rewrite Hx, (deref_linked _ _ _ Hvars). reflexivity. }
  split; [apply assemble_dims |]. split; [apply assemble_dims |]. split.
  - apply (assemble_within_shape o vars vars 0); [exact Hfill |].
    apply within_shape_zero.
  - intros pre v post Hsplit r j Hj.
    assert (Hpre : Forall (fun u =>
              within_shape (GetRows o) (var_rows u) (filled_block o vars u)) pre).
    { apply Forall_forall. intros u Hu.
      apply (proj1 (Forall_forall _ _) Hfill).
      rewrite Hsplit. apply elem_of_app. by left. }
    pose proof (assemble_block o vars pre v post 0
                  (Jacobian_zero (GetRows o) (Composite_GetRows vars)) r j
                  Hpre (within_shape_zero _ _ _ _) Hj) as Hblock.
    rewrite <- Hsplit in Hblock. exact Hblock.
Qed.

(** *** The two-block example: "A" (3 columns) and "B" (2 columns) *)

Lemma only_B_fills_within_shape a b c d xa xb (name : string) (x : VariablesPtr) :
  let vars := [VariableSet_new 3 "A" xa; VariableSet_new 2 "B" xb] in
  @fills_within_shape unit (only_B a b c d)
    (set_variables_ x (ConstraintSet_new 2 name tt)) vars.
Proof.
  cbv zeta. unfold fills_within_shape.
  apply Forall_cons. split; [apply map_Forall_empty |].
  apply Forall_cons. split; [| apply Forall_nil_2].
  unfold filled_block, within_shape; cbn.
  repeat (apply map_Forall_insert_2; [cbn; lia |]).
  apply map_Forall_empty.
Qed.

Lemma only_B_jacobian a b c d xa xb (name : string) (h : heap) (x : loc) :
  let vars := [VariableSet_new 3 "A" xa; VariableSet_new 2 "B" xb] in
  let o := @LinkVariableAll unit (only_B a b c d) h (Some x) (ConstraintSet_new 2 name tt) in
  h !! x = Some vars ->
  exists J, @GetJacobian unit (only_B a b c d) h o = Ok J /\
    rows J = 2 /\ cols J = 5 /\
    to_dense J = [ [zero; zero; zero; a; b];
                   [zero; zero; zero; c; d] ].
Proof.
  cbv zeta. intros Hvars. eexists. split.
  { unfold GetJacobian. cbn. rewrite (deref_linked _ _ _ Hvars). reflexivity. }
  split; [reflexivity |]. split; [reflexivity |].
  vm_compute. reflexivity.
Qed.

(** *** The assembled Jacobian *)

(** C1: for a linked constraint with [n] rows over variables of total width
    [m], whose subclass fills every block inside the shape it is given,
    [GetJacobian] returns an [n] x [m] matrix in which the block of every
    variable set [v], the result of [FillJacobianBlock(v.name, block)] on the
    zero-initialized [n] x (count of [v]) block, occupies the columns from
    offset = sum of the counts of the sets before [v], over the width of
    [v]. *)
Theorem GetJacobian_assembles_blocks `{ConstraintImpl D} (h : heap)
    (o : ConstraintSet D) (x : loc) (vars : Composite) :
  GetVariables o = Some x -> h !! x = Some vars ->
  exists J, GetJacobian h o = Ok J /\
    rows J = GetRows o /\ cols J = Composite_GetRows vars /\
    J = Jacobian_by_offsets o vars /\
    (fills_within_shape o vars ->
     within_shape (GetRows o) (Composite_GetRows vars) J /\
     forall pre v post, vars = pre ++ v :: post ->
       let block :=
         FillJacobianBlock o vars (var_name v) (Jacobian_zero (GetRows o) (var_rows v)) in
       let offset := Composite_GetRows pre in
       forall r j, j < var_rows v ->
         coeffs J !! (r, offset + j) = coeffs block !! (r, j) /\
         coeff J r (offset + j) = coeff block r j).
Proof.
  intros Hx Hvars.
  assert (HJ : GetJacobian h o = Ok (Jacobian_by_offsets o vars)).
  { unfold GetJacobian, GetVariables in *.
    rewrite Hx, (deref_linked _ _ _ Hvars). cbn. f_equal.
    apply (assemble_by_offsets o vars vars []). reflexivity. }
  exists (Jacobian_by_offsets o vars). split; [exact HJ |].
  assert (Hasm : Jacobian_by_offsets o vars
                 = assemble o vars vars 0
                     (Jacobian_zero (GetRows o) (Composite_GetRows vars)))
    by (symmetry; apply (assemble_by_offsets o vars vars []); reflexivity).
  split; [rewrite Hasm; apply assemble_dims |].
  split; [rewrite Hasm; apply assemble_dims |].
  split; [reflexivity |].
  intros Hfill.
  destruct (GetJacobian_linked h o x vars Hx Hvars Hfill)
    as (J & HJ' & _ & _ & Hshape & Hblocks).
  rewrite HJ in HJ'. injection HJ' as <-.
  split; [exact Hshape |].
  intros pre v post Hsplit block offset r j Hj.
  pose proof (Hblocks pre v post Hsplit r j Hj) as Hlook.
  split; [exact Hlook | by apply coeff_lookup_eq].
Qed.

Lemma GetJacobian_assembles_blocks_witness :
  let I := only_B one two zero one in
  let o := LinkVariableAll heap_AB (Some 7) (ConstraintSet_new 2 "c" tt) in
  exists J, GetJacobian heap_AB o = Ok J /\ rows J = 2 /\ cols J = 5 /\
    coeff J 0 4 = two.
Proof.
  cbv zeta.
  destruct (@GetJacobian_assembles_blocks unit (only_B one two zero one) heap_AB
              (@LinkVariableAll unit (only_B one two zero one) heap_AB (Some 7)
                 (ConstraintSet_new 2 "c" tt))
              7 vars_AB eq_refl eq_refl)
    as (J & HJ & Hrows & Hcols & _ & Hblocks).
  exists J. split; [exact HJ | split; [exact Hrows | split; [exact Hcols |]]].
  destruct (Hblocks (only_B_fills_within_shape one two zero one _ _ "c" (Some 7)))
    as [_ Hblock].
  apply (Hblock [VariableSet_new 3 "A" [one; one; one]]
                (VariableSet_new 2 "B" [two; two]) [] eq_refl 0 1).
  cbn. lia.
Defined.

(** C2: a variable set the subclass leaves untouched has an all-zero column
    range in the Jacobian; with blocks "A" (3) and "B" (2) and a 2-row
    constraint that depends on "B" only, the Jacobian is 2 x 5, its columns
    0-2 are zero and its columns 3-4 are the block [a b; c d] of the
    subclass. *)
Theorem GetJacobian_untouched_block_zero :
  (forall D (I : ConstraintImpl D) (h : heap) (o : ConstraintSet D) (x : loc)
          (vars : Composite),
     GetVariables o = Some x -> h !! x = Some vars -> fills_within_shape o vars ->
     forall pre v post, vars = pre ++ v :: post ->
       FillJacobianBlock o vars (var_name v) (Jacobian_zero (GetRows o) (var_rows v))
         = Jacobian_zero (GetRows o) (var_rows v) ->
       exists J, GetJacobian h o = Ok J /\
         forall r c,
           Composite_GetRows pre <= c < Composite_GetRows pre + var_rows v ->
           coeffs J !! (r, c) = None /\ coeff J r c = zero) /\
  (forall (a b c d : double) (xa xb : VectorXd) (name : string) (h : heap) (x : loc),
     let vars := [VariableSet_new 3 "A" xa; VariableSet_new 2 "B" xb] in
     let o := @LinkVariableAll unit (only_B a b c d) h (Some x)
                (ConstraintSet_new 2 name tt) in
     h !! x = Some vars ->
     exists J, @GetJacobian unit (only_B a b c d) h o = Ok J /\
       rows J = 2 /\ cols J = 5 /\
       to_dense J = [ [zero; zero; zero; a; b];
                      [zero; zero; zero; c; d] ]).
Proof.
  split.
  - intros D I h o x vars Hx Hvars Hfill pre v post Hsplit Huntouched.
    destruct (GetJacobian_linked h o x vars Hx Hvars Hfill)
      as (J & HJ & _ & _ & _ & Hblocks).
    exists J. split; [exact HJ |].
    intros r c Hc.
    assert (Hlook : coeffs J !! (r, c) = None).
    { replace c with (Composite_GetRows pre + (c - Composite_GetRows pre)) by lia.
      rewrite (Hblocks pre v post Hsplit) by lia.
      unfold filled_block. rewrite Huntouched. apply lookup_empty. }
    split; [exact Hlook | unfold coeff; by rewrite Hlook].
  - intros a b c d xa xb name h x. apply only_B_jacobian.
Qed.

Lemma GetJacobian_untouched_block_zero_witness :
  let I := only_B one two zero one in
  let o := LinkVariableAll heap_AB (Some 7) (ConstraintSet_new 2 "c" tt) in
  exists J, GetJacobian heap_AB o = Ok J /\ coeff J 1 2 = zero.
Proof.
  cbv zeta.
  destruct (proj1 GetJacobian_untouched_block_zero unit (only_B one two zero one)
              heap_AB
              (@LinkVariableAll unit (only_B one two zero one) heap_AB (Some 7)
                 (ConstraintSet_new 2 "c" tt))
              7 vars_AB eq_refl eq_refl
              (only_B_fills_within_shape one two zero one _ _ "c" (Some 7))
              [] (VariableSet_new 3 "A" [one; one; one])
              [VariableSet_new 2 "B" [two; two]] eq_refl eq_refl)
    as (J & HJ & Hzero).
  exists J. split; [exact HJ |].
  apply (Hzero 1 2). cbn. lia.
Defined.

(** * Further properties of the header's code *)

(** ** Linking *)

(** X1: with the default (empty) [LinkVariables], a later [LinkVariableAll]
    overrides an earlier one on the whole object, linking twice to the same
    Composite is the same as linking once, and linking changes neither the
    name, nor the row count, nor the subclass' members. *)
Theorem LinkVariableAll_default_last_wins {D}
    (fill : ConstraintSet D -> Composite -> string -> Jacobian -> Jacobian)
    (h : heap) (x y : VariablesPtr) (o : ConstraintSet D) :
  let I := {| LinkVariables := LinkVariables_default; FillJacobianBlock := fill |} in
  LinkVariableAll h y (LinkVariableAll h x o) = LinkVariableAll h y o /\
  LinkVariableAll h x (LinkVariableAll h x o) = LinkVariableAll h x o /\
  GetRows (LinkVariableAll h x o) = GetRows o /\
  GetName (LinkVariableAll h x o) = GetName o /\
  derived (LinkVariableAll h x o) = derived o.
Proof.
  cbv zeta. destruct o as [name n vars s]. repeat split.
Qed.

(** X2: every call of [LinkVariableAll] runs the hook exactly once, with the
    pointer of that call already stored: after the calls [xs], in order, the
    log of the logging subclass has grown by one entry [(x, x)] per call, and
    the constraint points to the last of them. *)
Theorem LinkVariables_runs_once_per_link (fill : string -> Jacobian -> Jacobian)
    (h : heap) (xs : list VariablesPtr)
    (o : ConstraintSet (list (VariablesPtr * VariablesPtr))) :
  let link_all :=
    foldl (fun o' y => @LinkVariableAll _ (logging_hook fill) h y o') o xs in
  derived link_all = derived o ++ map (fun y => (y, y)) xs /\
  GetVariables link_all = default (GetVariables o) (last xs) /\
  GetRows link_all = GetRows o.
Proof.
  cbv zeta. revert o. induction xs as [| x xs IH]; intros o.
  - cbn. by rewrite app_nil_r.
  - cbn [foldl]. destruct (IH (@LinkVariableAll _ (logging_hook fill) h x o))
      as (Hlog & Hvars & Hrows).
    rewrite Hlog, Hvars, Hrows. split; [| split].
    + cbn. by rewrite <- app_assoc.
    + destruct xs as [| v xs']; [reflexivity |].
      change (last (x :: v :: xs')) with (last (v :: xs')).
      destruct (proj2 (last_is_Some (v :: xs'))) as [z Hz]; [done |].
      by rewrite Hz.
    + reflexivity.
Qed.



(** ** Column ranges of the variable sets *)

Lemma Composite_GetRows_app (pre post : Composite) :
  Composite_GetRows (pre ++ post) = Composite_GetRows pre + Composite_GetRows post.
Proof.
  unfold Composite_GetRows.
  induction pre as [| u pre IH]; cbn; [done | rewrite IH; lia].
Qed.

Lemma block_offset_S (vars : Composite) (k : nat) (v : VariableSet) :
  vars !! k = Some v ->
  block_offset vars (S k) = block_offset vars k + var_rows v.
Proof.
  intros Hk. unfold block_offset.
  by rewrite (take_S_r _ _ _ Hk), Composite_GetRows_snoc.
Qed.

Lemma block_offset_mono (vars : Composite) (k k' : nat) :
  k <= k' -> block_offset vars k <= block_offset vars k'.
Proof.
  induction 1 as [| k' _ IH]; [done |].
  destruct (vars !! k') as [v |] eqn:Hk'.
  - rewrite (block_offset_S _ _ _ Hk'). lia.
  - apply lookup_ge_None in Hk'. unfold block_offset in *.
    rewrite (take_ge vars (S k')) by lia. by rewrite (take_ge vars k') in IH.
Qed.

Lemma block_offset_length (vars : Composite) :
  block_offset vars (length vars) = Composite_GetRows vars.
Proof. unfold block_offset. by rewrite take_ge. Qed.

(** Every column of the full matrix lies in the range of some variable
    set. *)
Lemma column_in_some_block (vars : Composite) (c : nat) :
  c < Composite_GetRows vars ->
  exists pre v post, vars = pre ++ v :: post /\
    Composite_GetRows pre <= c < Composite_GetRows pre + var_rows v.
Proof.
  revert c. induction vars as [| u vars IH]; intros c Hc; cbn in Hc; [lia |].
  destruct (decide (c < var_rows u)) as [Hu | Hu].
  - exists [], u, vars. split; [done | cbn; lia].
  - destruct (IH (c - var_rows u)) as (pre & v & post & -> & Hrange).
    { unfold Composite_GetRows. lia. }
    exists (u :: pre), v, post. split; [done |].
    change (Composite_GetRows (u :: pre)) with (var_rows u + Composite_GetRows pre).
    lia.
Qed.

(** X4: the column ranges [offset, offset + count) of the variable sets, with
    offset the sum of the counts before, split the columns 0 .. m-1 of the
    full matrix: each range ends inside the matrix, and every column lies in
    the range of exactly one variable set. *)
Theorem column_ranges_partition (vars : Composite) :
  block_offset vars 0 = 0 /\
  (forall k v, vars !! k = Some v ->
     block_offset vars k + var_rows v <= Composite_GetRows vars) /\
  (forall c, c < Composite_GetRows vars ->
     exists k v, vars !! k = Some v /\
       block_offset vars k <= c < block_offset vars k + var_rows v /\
       forall k' v', vars !! k' = Some v' ->
         block_offset vars k' <= c < block_offset vars k' + var_rows v' ->
         k' = k).
Proof.
  split; [reflexivity | split].
  - intros k v Hk. rewrite <- (block_offset_S _ _ _ Hk), <- block_offset_length.
    apply block_offset_mono. by apply lookup_lt_Some in Hk.
  - intros c Hc.
    destruct (column_in_some_block vars c Hc) as (pre & v & post & Hsplit & Hrange).
    assert (Hk : vars !! length pre = Some v)
      by (rewrite Hsplit; by apply list_lookup_middle).
    assert (Hoff : block_offset vars (length pre) = Composite_GetRows pre)
      by (unfold block_offset; rewrite Hsplit; by rewrite take_app_length).
    exists (length pre), v. split; [exact Hk |]. split; [lia |].
    intros k' v' Hk' Hrange'.
    destruct (Nat.lt_trichotomy k' (length pre)) as [Hlt | [Heq | Hgt]]; [| done |].
    + pose proof (block_offset_mono vars (S k') (length pre) Hlt) as Hmono.
      rewrite (block_offset_S _ _ _ Hk') in Hmono. lia.
    + pose proof (block_offset_mono vars (S (length pre)) k' Hgt) as Hmono.
      rewrite (block_offset_S _ _ _ Hk) in Hmono. lia.
Qed.

Lemma column_ranges_partition_witness :
  exists k v, vars_ABC !! k = Some v /\ var_name v = "B" /\
    block_offset vars_ABC k <= 4 < block_offset vars_ABC k + var_rows v.
Proof.
  destruct (proj2 (proj2 (column_ranges_partition vars_ABC)) 4) as (k & v & Hk & Hrange & Huniq).
  { cbn. lia. }
  assert (Hk1 : k = 1).
  { symmetry. apply (Huniq 1 (VariableSet_new 2 "B" [two; two])); [reflexivity |].
    cbn. lia. }
  subst k. exists 1, v. split; [exact Hk |]. split; [| exact Hrange].
  cbn in Hk. by injection Hk as <-.
Defined.

(** ** More on the assembled Jacobian *)

(** X5: [GetJacobian] only combines what the subclass supplies: when every
    filled block keeps to its shape, each coefficient stored in the result
    is a coefficient [FillJacobianBlock] stored in the block of one variable
    set, at the same row and at that set's offset plus the block's column. *)
Theorem GetJacobian_only_combines_blocks `{ConstraintImpl D} (h : heap)
    (o : ConstraintSet D) (x : loc) (vars : Composite) (J : Jacobian)
    (r c : nat) (val : double) :
  GetVariables o = Some x -> h !! x = Some vars -> fills_within_shape o vars ->
  GetJacobian h o = Ok J -> coeffs J !! (r, c) = Some val ->
  exists pre v post j, vars = pre ++ v :: post /\
    r < GetRows o /\ j < var_rows v /\ c = Composite_GetRows pre + j /\
    coeffs (FillJacobianBlock o vars (var_name v)
              (Jacobian_zero (GetRows o) (var_rows v))) !! (r, j) = Some val.
Proof.
  intros Hx Hvars Hfill HJ Hval.
  destruct (GetJacobian_linked h o x vars Hx Hvars Hfill)
    as (J' & HJ' & _ & _ & Hshape & Hblocks).
  rewrite HJ in HJ'. injection HJ' as <-.
  destruct (Hshape _ _ Hval) as [Hr Hc]; cbn in Hr, Hc.
  destruct (column_in_some_block vars c Hc) as (pre & v & post & Hsplit & Hrange).
  exists pre, v, post, (c - Composite_GetRows pre).
  split; [exact Hsplit |]. split; [exact Hr |]. split; [lia |]. split; [lia |].
  change (coeffs (filled_block o vars v) !! (r, c - Composite_GetRows pre) = Some val).
  rewrite <- (Hblocks pre v post Hsplit) by lia.
  by replace (Composite_GetRows pre + (c - Composite_GetRows pre)) with c by lia.
Qed.

Lemma GetJacobian_only_combines_blocks_witness :
  let I := only_B one two zero one in
  let o := LinkVariableAll heap_AB (Some 7) (ConstraintSet_new 2 "c" tt) in
  exists pre v post j, vars_AB = pre ++ v :: post /\
    0 < GetRows o /\ j < var_rows v /\ 4 = Composite_GetRows pre + j /\
    coeffs (FillJacobianBlock o vars_AB (var_name v)
              (Jacobian_zero (GetRows o) (var_rows v))) !! (0, j) = Some two.
Proof.
  cbv zeta.
  apply (@GetJacobian_only_combines_blocks unit (only_B one two zero one) heap_AB
           (@LinkVariableAll unit (only_B one two zero one) heap_AB (Some 7)
              (ConstraintSet_new 2 "c" tt))
           7 vars_AB _ 0 4 two eq_refl eq_refl
           (only_B_fills_within_shape one two zero one _ _ "c" (Some 7))
           eq_refl).
  vm_compute. reflexivity.
Defined.

Lemma insert_block_nothing col block J :
  coeffs block = ∅ -> insert_block col block J = J.
Proof.
  intros Hempty. unfold insert_block. by rewrite Hempty, map_to_list_empty.
Qed.

Lemma assemble_nothing `{ConstraintImpl D} (o : ConstraintSet D) (vars : Composite)
    (components : list VariableSet) (col : nat) (J : Jacobian) :
  (forall v, v ∈ components -> coeffs (filled_block o vars v) = ∅) ->
  assemble o vars components col J = J.
Proof.
  revert col J. induction components as [| v rest IH]; intros col J Hnone; [done |].
  cbn. rewrite insert_block_nothing by (apply Hnone; left).
  apply IH. intros u Hu. apply Hnone. by right.
Qed.

(** X6: a constraint whose [FillJacobianBlock] stores nothing in any block
    ("if the constraint doesn't depend on a var_set, this function should
    simply do nothing") gets the n x m matrix without stored coefficients;
    on a Composite without variable sets that is the n x 0 matrix. *)
Theorem GetJacobian_no_dependency `{ConstraintImpl D} (h : heap)
    (o : ConstraintSet D) (x : loc) (vars : Composite) :
  GetVariables o = Some x -> h !! x = Some vars ->
  (forall v, v ∈ vars ->
     coeffs (FillJacobianBlock o vars (var_name v)
               (Jacobian_zero (GetRows o) (var_rows v))) = ∅) ->
  GetJacobian h o = Ok (Jacobian_zero (GetRows o) (Composite_GetRows vars)) /\
  (vars = [] -> GetJacobian h o = Ok (Jacobian_zero (GetRows o) 0)).
Proof.
  unfold GetVariables. intros Hx Hvars Hnone.
  assert (HJ : GetJacobian h o
               = Ok (Jacobian_zero (GetRows o) (Composite_GetRows vars))).
  { unfold GetJacobian. rewrite Hx, (deref_linked _ _ _ Hvars). cbn.
    by rewrite assemble_nothing. }
  split; [exact HJ |]. intros ->. exact HJ.
Qed.

Lemma GetJacobian_no_dependency_witness :
  let I := only_B one two zero one in
  GetJacobian heap_A (LinkVariableAll heap_A (Some 5) (ConstraintSet_new 2 "c" tt))
  = Ok (Jacobian_zero 2 3).
Proof.
  cbv zeta.
  apply (@GetJacobian_no_dependency unit (only_B one two zero one) heap_A
           (@LinkVariableAll unit (only_B one two zero one) heap_A (Some 5)
              (ConstraintSet_new 2 "c" tt))
           5 vars_A eq_refl eq_refl).
  intros v Hv. apply list_elem_of_singleton in Hv as ->. reflexivity.
Defined.

Lemma insert_block_coeffs_ext col block block' J J' :
  coeffs block = coeffs block' -> coeffs J = coeffs J' ->
  coeffs (insert_block col block J) = coeffs (insert_block col block' J').
Proof.
  intros Hblock HJ. apply map_eq. intros [r c].
  destruct (decide (c < col)) as [Hc | Hc].
  - rewrite !insert_block_left by done. by rewrite HJ.
  - replace c with (col + (c - col)) by lia.
    rewrite !insert_block_lookup. by rewrite Hblock, HJ.
Qed.

Lemma assemble_app `{ConstraintImpl D} (o : ConstraintSet D) (vars : Composite)
    (l1 l2 : list VariableSet) (col : nat) (J : Jacobian) :
  assemble o vars (l1 ++ l2) col J
  = assemble o vars l2 (col + Composite_GetRows l1) (assemble o vars l1 col J).
Proof.
  revert col J. induction l1 as [| v l1 IH]; intros col J; cbn.
  - by rewrite Nat.add_0_r.
  - rewrite IH. f_equal. unfold Composite_GetRows. lia.
Qed.

(** The coefficients the loop stores depend on the object and on the
    Composite only through the blocks the subclass fills. *)
Lemma assemble_coeffs_ext `{ConstraintImpl D} (o o' : ConstraintSet D)
    (vars vars' : Composite) (l : list VariableSet) (col : nat) (J J' : Jacobian) :
  (forall v, v ∈ l ->
     coeffs (filled_block o' vars' v) = coeffs (filled_block o vars v)) ->
  coeffs J' = coeffs J ->
  coeffs (assemble o' vars' l col J') = coeffs (assemble o vars l col J).
Proof.
  revert col J J'. induction l as [| v l IH]; intros col J J' Hsame HJ; [done |].
  cbn. apply IH.
  - intros u Hu. apply Hsame. by right.
  - apply insert_block_coeffs_ext; [apply Hsame; left | exact HJ].
Qed.

(** X7: variable sets added at the end of the Composite do not move the
    columns of the sets before them: if the subclass fills the blocks of the
    old sets as before, the Jacobian over the longer Composite has the same
    rows, is wider by the counts of the new sets, and agrees with the old
    Jacobian on all the old columns. *)
Theorem GetJacobian_append_blocks `{ConstraintImpl D} (h h' : heap)
    (o o' : ConstraintSet D) (x x' : loc) (vars more : Composite) :
  GetVariables o = Some x -> h !! x = Some vars ->
  GetVariables o' = Some x' -> h' !! x' = Some (vars ++ more) ->
  GetRows o' = GetRows o ->
  (forall v, v ∈ vars ->
     coeffs (FillJacobianBlock o' (vars ++ more) (var_name v)
               (Jacobian_zero (GetRows o') (var_rows v)))
     = coeffs (FillJacobianBlock o vars (var_name v)
                 (Jacobian_zero (GetRows o) (var_rows v)))) ->
  exists J J', GetJacobian h o = Ok J /\ GetJacobian h' o' = Ok J' /\
    rows J' = rows J /\ cols J' = cols J + Composite_GetRows more /\
    forall r c, c < cols J ->
      coeffs J' !! (r, c) = coeffs J !! (r, c) /\ coeff J' r c = coeff J r c.
Proof.
  unfold GetVariables. intros Hx Hvars Hx' Hvars' Hrows Hsame.
  eexists. eexists. split; [| split].
  { unfold GetJacobian. rewrite Hx, (deref_linked _ _ _ Hvars). reflexivity. }
  { unfold GetJacobian. rewrite Hx', (deref_linked _ _ _ Hvars'). reflexivity. }
  cbn. split; [| split].
  - rewrite !(proj1 (assemble_dims _ _ _ _ _)). cbn. exact Hrows.
  - rewrite !(proj2 (assemble_dims _ _ _ _ _)). cbn. apply Composite_GetRows_app.
  - intros r c Hc.
    rewrite (proj2 (assemble_dims _ _ _ _ _)) in Hc. cbn in Hc.
    assert (Hlook : coeffs (assemble o' (vars ++ more) (vars ++ more) 0
                      (Jacobian_zero (GetRows o') (Composite_GetRows (vars ++ more))))
                      !! (r, c)
                    = coeffs (assemble o vars vars 0
                        (Jacobian_zero (GetRows o) (Composite_GetRows vars))) !! (r, c)).
    { rewrite assemble_app, assemble_left by (cbn; lia).
      by rewrite (assemble_coeffs_ext o o' vars (vars ++ more) vars 0
                    (Jacobian_zero (GetRows o) (Composite_GetRows vars))). }
    split; [exact Hlook | by apply coeff_lookup_eq].
Qed.

Lemma GetJacobian_append_blocks_witness :
  let I := only_B one two zero one in
  let o := LinkVariableAll heap_ABC (Some 7) (ConstraintSet_new 2 "c" tt) in
  let o' := LinkVariableAll heap_ABC (Some 8) (ConstraintSet_new 2 "c" tt) in
  exists J J', GetJacobian heap_ABC o = Ok J /\ GetJacobian heap_ABC o' = Ok J' /\
    cols J = 5 /\ cols J' = 9 /\ coeff J' 0 4 = coeff J 0 4.
Proof.
  cbv zeta.
  destruct (@GetJacobian_append_blocks unit (only_B one two zero one)
              heap_ABC heap_ABC
              (@LinkVariableAll unit (only_B one two zero one) heap_ABC (Some 7)
                 (ConstraintSet_new 2 "c" tt))
              (@LinkVariableAll unit (only_B one two zero one) heap_ABC (Some 8)
                 (ConstraintSet_new 2 "c" tt))
              7 8 vars_AB [VariableSet_new 4 "C" [one; one; one; one]]
              eq_refl eq_refl eq_refl eq_refl eq_refl (fun _ _ => eq_refl))
    as (J & J' & HJ & HJ' & _ & Hcols & Hsame).
  assert (HcJ : cols J = 5) by (injection HJ as <-; reflexivity).
  exists J, J'. split; [exact HJ |]. split; [exact HJ' |].
  split; [exact HcJ |]. split; [rewrite Hcols, HcJ; reflexivity |].
  apply (Hsame 0 4). rewrite HcJ. lia.
Defined.

(** ** The shape of a cost term *)

Lemma is_CostTerm_rows `{ConstraintImpl D} (o : ConstraintSet D) :
  is_CostTerm o -> GetRows o = 1.
Proof.
  induction 1 as [name s | h x o _ IH | s o _ IH]; [reflexivity | exact IH | exact IH].
Qed.

(** X8: a linked cost term is "a constraint with only one row and no bounds"
    in all three queries: its Jacobian is the single gradient row 1 x m, and
    [GetValues] and [GetBounds] each have one entry, as many as the Jacobian
    has rows. *)
Theorem CostTerm_shapes_agree {D} (I : ConstraintImpl D) (C : CostImpl D) (h : heap)
    (o : ConstraintSet D) (x : loc) (vars : Composite) :
  is_CostTerm o -> GetVariables o = Some x -> h !! x = Some vars ->
  exists J values, GetJacobian h o = Ok J /\ CostTerm_GetValues h o = Ok values /\
    rows J = 1 /\ cols J = Composite_GetRows vars /\
    length values = rows J /\ length (CostTerm_GetBounds o) = rows J.
Proof.
  unfold GetVariables. intros Hcost Hx Hvars.
  eexists. eexists. split; [| split].
  { unfold GetJacobian. rewrite Hx, (deref_linked _ _ _ Hvars). reflexivity. }
  { unfold CostTerm_GetValues, CostTerm_GetCost, GetVariables.
    rewrite Hx, (deref_linked _ _ _ Hvars). reflexivity. }
  cbn. rewrite !(proj1 (assemble_dims _ _ _ _ _)), (proj2 (assemble_dims _ _ _ _ _)).
  cbn. rewrite (is_CostTerm_rows o Hcost). repeat split.
Qed.

Lemma CostTerm_shapes_agree_witness :
  let I := only_B one two zero one in
  let o := LinkVariableAll heap_AB (Some 7) (CostTerm_new "cost" tt) in
  exists J values, GetJacobian heap_AB o = Ok J /\
    @CostTerm_GetValues unit first_value_cost heap_AB o = Ok values /\
    rows J = 1 /\ cols J = 5.
Proof.
  cbv zeta.
  destruct (CostTerm_shapes_agree (only_B one two zero one) first_value_cost heap_AB
              (@LinkVariableAll unit (only_B one two zero one) heap_AB (Some 7)
                 (CostTerm_new "cost" tt))
              7 vars_AB
              (@cost_linked unit (only_B one two zero one) heap_AB (Some 7) _
                 (@cost_constructed unit (only_B one two zero one) "cost" tt))
              eq_refl eq_refl)
    as (J & values & HJ & Hvalues & Hrows & Hcols & _).
  exists J, values. repeat split; assumption.
Defined.

(** ** The number of stored coefficients *)

(** Writing entries at positions that are free, and different from each
    other, adds one stored coefficient per entry. *)
Lemma insert_block_nonZeros n col block J :
  within_shape n col J ->
  nonZeros (insert_block col block J) = nonZeros J + nonZeros block.
Proof.
  intros HJ. unfold nonZeros at 3. rewrite <- length_map_to_list.
  unfold insert_block.
  pose proof (NoDup_fst_map_to_list (coeffs block)) as Hnodup.
  assert (Hfree : forall r c v, (r, c, v) ∈ map_to_list (coeffs block) ->
                    coeffs J !! (r, col + c) = None).
  { intros r c v _. destruct (coeffs J !! (r, col + c)) as [y |] eqn:Hy; [| done].
    apply HJ in Hy as [_ Hc]; cbn in Hc. lia. }
  clear HJ. revert J Hfree.
  induction (map_to_list (coeffs block)) as [| [[r c] v] l IH]; intros J Hfree.
  - cbn. lia.
  - cbn in Hnodup. apply NoDup_cons in Hnodup as [Hfresh Hnodup].
    cbn [foldl length]. rewrite IH; [| exact Hnodup |].
    + unfold nonZeros; cbn.
      rewrite map_size_insert_None by (apply (Hfree r c v); left). lia.
    + intros r' c' v' Hin. cbn. rewrite lookup_insert_ne.
      * apply (Hfree r' c' v'). by right.
      * intros Hk. injection Hk as <- Hc. assert (c' = c) as -> by lia.
        apply Hfresh. apply list_elem_of_fmap. by exists (r, c, v').
Qed.

Lemma assemble_nonZeros `{ConstraintImpl D} (o : ConstraintSet D) (vars : Composite)
    (components : list VariableSet) (col : nat) (J : Jacobian) :
  Forall (fun v => within_shape (GetRows o) (var_rows v) (filled_block o vars v))
         components ->
  within_shape (GetRows o) col J ->
  nonZeros (assemble o vars components col J)
  = nonZeros J + sum_list_with (fun v => nonZeros (filled_block o vars v)) components.
Proof.
  revert col J. induction components as [| v rest IH]; intros col J Hblocks HJ; cbn.
  - lia.
  - apply Forall_cons in Hblocks as [Hv Hrest].
    rewrite IH; [| exact Hrest | by apply insert_block_within_shape].
    rewrite (insert_block_nonZeros (GetRows o)) by done. lia.
Qed.

(** X9: when every filled block keeps to its shape, the Jacobian stores as
    many coefficients as the blocks of all variable sets together: no
    coefficient of a block is lost or overwritten by another block. *)
Theorem GetJacobian_nonZeros `{ConstraintImpl D} (h : heap) (o : ConstraintSet D)
    (x : loc) (vars : Composite) :
  GetVariables o = Some x -> h !! x = Some vars -> fills_within_shape o vars ->
  exists J, GetJacobian h o = Ok J /\
    nonZeros J
    = sum_list_with
        (fun v => nonZeros (FillJacobianBlock o vars (var_name v)
                              (Jacobian_zero (GetRows o) (var_rows v))))
        vars.
Proof.
  unfold GetVariables. intros Hx Hvars Hfill.
  eexists. split.
  { unfold GetJacobian. rewrite Hx, (deref_linked _ _ _ Hvars). reflexivity. }
  cbn. rewrite assemble_nonZeros; [| exact Hfill | apply within_shape_zero].
  unfold nonZeros at 1. cbn. by rewrite map_size_empty.
Qed.

Lemma GetJacobian_nonZeros_witness :
  let I := only_B one two zero one in
  let o := LinkVariableAll heap_AB (Some 7) (ConstraintSet_new 2 "c" tt) in
  exists J, GetJacobian heap_AB o = Ok J /\ nonZeros J = 4.
Proof.
  cbv zeta.
  destruct (@GetJacobian_nonZeros unit (only_B one two zero one) heap_AB
              (@LinkVariableAll unit (only_B one two zero one) heap_AB (Some 7)
                 (ConstraintSet_new 2 "c" tt))
              7 vars_AB eq_refl eq_refl
              (only_B_fills_within_shape one two zero one _ _ "c" (Some 7)))
    as (J & HJ & Hnnz).
  exists J. split; [exact HJ |]. rewrite Hnnz. vm_compute. reflexivity.
Defined.
